(** * print_help: launching the help viewer of the fish shell

    A shallow embedding of [src/print_help.cpp] and the properties of its
    single function [print_help].

    The function formats a shell command into a stack buffer with
    [snprintf], hands the buffer to [system] when the formatted length is
    below the buffer size, and reports a failure of [system] on file
    descriptor 2 through [write_loop].  The calls that reach the outside
    world are kept as the nodes of a finite interaction tree, so that every
    property is stated against all possible answers of the environment. *)

From Stdlib Require Import List ZArith Lia Bool.
From Stdlib Require Import Strings.Byte.
From Stdlib Require Strings.String.
Import ListNotations String.StringSyntax.
Local Open Scope Z_scope.

(** ** C strings *)

(** The bytes of a string literal. *)
Definition bytes (s : String.string) : list byte :=
  String.list_byte_of_string s.
Delimit Scope string_scope with string.
Arguments bytes s%_string.

Definition is_nul (b : byte) : bool := Byte.eqb b x00.

(** A [const char *] is modelled by the bytes it points to.  The string it
    denotes stops at the first NUL byte (or at the end of the list, where
    the terminator is implicit). *)
Fixpoint c_str (p : list byte) : list byte :=
  match p with
  | [] => []
  | b :: p' => if is_nul b then [] else b :: c_str p'
  end.

(** [strlen] of <cstring>: the result is a [size_t], never negative. *)
Definition strlen (p : list byte) : Z := Z.of_nat (length (c_str p)).

(** ** The slice of the C library that [print_help] uses *)

Module Libc.

(** Largest value of the C type [int], the return type of [snprintf]. *)
Definition INT_MAX : Z := 2147483647.

(** Expansion of a format string whose only conversion is [%s], with one
    string argument: every [%s] is replaced by the argument, every other
    byte is copied. *)
Fixpoint format_s (fmt arg : list byte) : list byte :=
  match fmt with
  | [] => []
  | x25 :: x73 :: rest => arg ++ format_s rest arg
  | b :: rest => b :: format_s rest arg
  end.

(** [snprintf(buf, size, fmt, arg)], for [0 < size <= INT_MAX].

    The first component is the returned [int]: the number of bytes the
    complete output needs, terminator not counted, whatever [size] is.
    That number is an [int]: when the output needs more than [INT_MAX]
    bytes the call fails (POSIX: EOVERFLOW) and returns a negative value,
    -1 in the C libraries fish is built against.

    The second component is the string left in [buf]: the output cut to
    [size - 1] bytes, the last byte of the buffer being kept for the
    terminator.  The GNU C library stores that prefix on the failing path
    as well; other C libraries stop at the conversion that overflows and
    leave a shorter prefix.  In either case the buffer cannot hold more
    than [size - 1] bytes of string. *)
Definition snprintf (size : Z) (fmt arg : list byte) : Z * list byte :=
  let out := format_s fmt (c_str arg) in
  let needed := Z.of_nat (length out) in
  (if needed <=? INT_MAX then needed else -1,
   firstn (Z.to_nat (size - 1)) out).

End Libc.

(** ** Calls to the outside world *)

(** The two calls of [print_help] whose effect leaves the process:
    [system(cmd)] and [write_loop(fd, buf, count)]. *)
Inductive call : Type :=
| System (cmd : list byte)
| WriteLoop (fd : Z) (buf : list byte) (count : Z).

(** A straight-line program over these calls: it either returns, or makes
    a call and goes on with the integer the call returned. *)
Inductive prog (A : Type) : Type :=
| Ret (a : A)
| Do (c : call) (k : Z -> prog A).
Arguments Ret {A} a.
Arguments Do {A} c k.

Fixpoint bind {A B : Type} (p : prog A) (f : A -> prog B) : prog B :=
  match p with
  | Ret a => f a
  | Do c k => Do c (fun r => bind (k r) f)
  end.

Notation "x <- p ;; q" := (bind p (fun x => q))
  (at level 61, p at next level, right associativity).

(** [system] returns -1 when no child process could be created, and the
    termination status of the command otherwise. *)
Definition system (cmd : list byte) : prog Z := Do (System cmd) Ret.

(** [write_loop] is declared in common.h; it returns a [ssize_t]. *)
Definition write_loop (fd : Z) (buf : list byte) (count : Z) : prog Z :=
  Do (WriteLoop fd buf count) Ret.

(** ** print_help.cpp *)

Definition CMD_LEN : Z := 1024.

Definition HELP_ERR : list byte :=
  bytes "Could not show help message" ++ [x0a].

(** [void print_help(const char *c)].  The [&&] of the source evaluates
    [system(cmd)] only when [printed < CMD_LEN] holds. *)
Definition print_help (c : list byte) : prog unit :=
  let (printed, cmd) :=
    Libc.snprintf CMD_LEN (bytes "fish -c '__fish_print_help %s'") c in
  if printed <? CMD_LEN then
    r <- system cmd ;;
    if r =? -1 then
      _ <- write_loop 2 HELP_ERR (strlen HELP_ERR) ;; Ret tt
    else Ret tt
  else Ret tt.

(** ** Running a program against an environment *)

(** What happened in a run: the calls in order, each with its answer. *)
Definition trace : Type := list (call * Z).

(** An environment answers a call; the answer may depend on everything
    that happened before. *)
Definition env : Type := trace -> call -> Z.

Fixpoint run {A : Type} (e : env) (p : prog A) (past : trace) : trace * A :=
  match p with
  | Ret a => ([], a)
  | Do c k =>
      let r := e past c in
      let (t, a) := run e (k r) (past ++ [(c, r)]) in
      ((c, r) :: t, a)
  end.

Definition exec {A : Type} (e : env) (p : prog A) : trace * A := run e p [].

Definition calls (t : trace) : list call := map fst t.
Definition answers (t : trace) : list Z := map snd t.

Definition is_system (c : call) : bool :=
  match c with System _ => true | WriteLoop _ _ _ => false end.

Definition is_write_loop (c : call) : bool :=
  match c with System _ => false | WriteLoop _ _ _ => true end.

(** Invocations of the command executor in a run. *)
Definition invocations (t : trace) : list call := filter is_system (calls t).

(** Diagnostics handed to the write primitive in a run. *)
Definition diagnostics (t : trace) : list call := filter is_write_loop (calls t).

(** ** The command line and its length *)

(** The template of the source with the topic in the place of [%s],
    written out without going through the format interpreter. *)
Definition command (topic : list byte) : list byte :=
  bytes "fish -c '__fish_print_help " ++ topic ++ bytes "'".

(** The topic of a call [print_help(c)] is the string [c] points to. *)
Definition topic_of (c : list byte) : list byte := c_str c.

(** Bytes needed by the complete command, terminator not counted. *)
Definition formatted_length (c : list byte) : Z :=
  Z.of_nat (length (command (topic_of c))).

(** The program that is left once the command has been formatted
    completely: one [system] call, and one [write_loop] call when the
    answer is -1. *)
Definition launch (cmd : list byte) : prog unit :=
  Do (System cmd) (fun r =>
    if r =? -1 then Do (WriteLoop 2 HELP_ERR 28) (fun _ => Ret tt) else Ret tt).

(** ** The write primitive of common.h *)

Module Common.

(** Modelled from the spec: the sink of the write primitive, which may
    take only a part of what it is offered.  One write takes at most [n]
    of the bytes offered, or fails with an unrecoverable I/O error. *)
Inductive write_answer : Type :=
| Takes (n : nat)
| Fails.

(** Modelled from the spec: the status returned by the write primitive,
    all bytes written or unrecoverable error. *)
Inductive status : Type :=
| AllWritten
| IOError.

(** The bytes taken by one write call on a file descriptor. *)
Definition written : Type := (Z * list byte)%type.

(** Modelled from the spec: the loop of the write primitive, which is not
    among the sources.  It goes on past partial writes, each call being
    offered the bytes not yet written, until nothing is pending or a write
    fails.  [sink] lists the answers of the sink to the successive write
    calls; [None] is a loop that has used up the listed answers and is
    still running. *)
Fixpoint write_all (sink : list write_answer) (fd : Z) (pending : list byte)
  : option (status * list written) :=
  match pending, sink with
  | [], _ => Some (AllWritten, [])
  | _ :: _, [] => None
  | _ :: _, Fails :: _ => Some (IOError, [])
  | _ :: _, Takes n :: sink' =>
      match write_all sink' fd (skipn n pending) with
      | Some (st, ws) => Some (st, (fd, firstn n pending) :: ws)
      | None => None
      end
  end.

(** Modelled from the spec: [write_loop] is declared in common.h and
    defined outside print_help.cpp; the definition is not among the
    sources.  The specification describes it as a primitive that loops
    past partial writes until all bytes are written or an unrecoverable
    I/O error occurs, and that returns a status.  It is called with a
    buffer and the number of bytes of the buffer to write. *)
Definition write_loop (sink : list write_answer)
    (fd : Z) (buf : list byte) (count : Z) : option (status * list written) :=
  write_all sink fd (firstn (Z.to_nat count) buf).

(** The bytes that reached the sink, in order. *)
Definition output (ws : list written) : list byte := concat (map snd ws).

(** A sink that takes at least one byte at every call. *)
Definition takes_some (a : write_answer) : bool :=
  match a with Takes (S _) => true | _ => false end.

End Common.

(** Environments used to run the examples. *)
Definition obliging : env := fun _ _ => 0.
Definition failing : env := fun _ _ => -1.
Definition failing_twice : env :=
  fun past _ => if (length past <? 2)%nat then -1 else 0.

(** The environment [e], except that [write_loop] returns [status]. *)
Definition with_write_status (status : Z) (e : env) : env :=
  fun past c =>
    match c with
    | WriteLoop _ _ _ => status
    | System _ => e past c
    end.

(** A topic of 2 GiB: [formatted_length] is beyond [INT_MAX]. *)
Definition long_topic : list byte := repeat x61 (Z.to_nat 2147483648).

(** ** The buffer of print_help in memory *)

(** An array after the string [s] and its terminator have been written at
    its start; the bytes behind the terminator keep what they held. *)
Definition store (s : list byte) (buf : list byte) : list byte :=
  s ++ x00 :: skipn (S (length s)) buf.

(** [snprintf] as in [Libc.snprintf], on the array itself.  [buf] is the
    content of the array before the call, and the second component is its
    content after the call.  [kept] is the number of bytes of output that
    the C library has stored when it fails with EOVERFLOW: all that fits
    for the GNU C library, the bytes that precede the overflowing
    conversion for musl and the BSD C library.  The stored bytes are
    terminated on either path. *)
Definition snprintf_into (kept : nat) (buf : list byte)
    (size : Z) (fmt arg : list byte) : Z * list byte :=
  let out := Libc.format_s fmt (c_str arg) in
  let needed := Z.of_nat (length out) in
  if needed <=? Libc.INT_MAX
  then (needed, store (firstn (Z.to_nat (size - 1)) out) buf)
  else (-1, store (firstn (Nat.min kept (Z.to_nat (size - 1))) out) buf).

(** [print_help] with its local array: [char cmd[CMD_LEN]] is not
    initialised, so before [snprintf] it holds [stack], whatever the stack
    held at that place; [system(cmd)] reads the string that starts the
    array. *)
Definition print_help_in (kept : nat) (stack : list byte) (c : list byte)
  : prog unit :=
  let (printed, cmd) :=
    snprintf_into kept stack CMD_LEN (bytes "fish -c '__fish_print_help %s'") c in
  if printed <? CMD_LEN then
    r <- system (c_str cmd) ;;
    if r =? -1 then
      _ <- write_loop 2 HELP_ERR (strlen HELP_ERR) ;; Ret tt
    else Ret tt
  else Ret tt.

(** * Proofs *)

(** ** Facts about C strings and the C library *)

Lemma c_str_length_le (p : list byte) : (length (c_str p) <= length p)%nat.
Proof.
  induction p as [|b p IH]; simpl; [lia|].
  destruct (is_nul b); simpl; lia.
Qed.

Lemma c_str_no_nul (p : list byte) :
  forallb (fun b => negb (is_nul b)) (c_str p) = true.
Proof.
  induction p as [|b p IH]; simpl; [reflexivity|].
  destruct (is_nul b) eqn:Hb; simpl; [reflexivity|].
  now rewrite Hb, IH.
Qed.

Lemma c_str_id (p : list byte) :
  forallb (fun b => negb (is_nul b)) p = true -> c_str p = p.
Proof.
  induction p as [|b p IH]; simpl; [reflexivity|].
  intros H. apply andb_true_iff in H as [Hb Hp].
  apply negb_true_iff in Hb. rewrite Hb. now rewrite IH.
Qed.

Lemma c_str_repeat (b : byte) (n : nat) :
  is_nul b = false -> c_str (repeat b n) = repeat b n.
Proof.
  intros Hb. induction n as [|n IH]; simpl; [reflexivity|].
  now rewrite Hb, IH.
Qed.

Lemma strlen_nonneg (p : list byte) : 0 <= strlen p.
Proof. unfold strlen. lia. Qed.

Lemma strlen_repeat (b : byte) (n : nat) :
  is_nul b = false -> strlen (repeat b n) = Z.of_nat n.
Proof.
  intros Hb. unfold strlen. now rewrite (c_str_repeat b n Hb), repeat_length.
Qed.

Lemma format_s_template (arg : list byte) :
  Libc.format_s (bytes "fish -c '__fish_print_help %s'") arg = command arg.
Proof. reflexivity. Qed.

Lemma length_command (topic : list byte) :
  Z.of_nat (length (command topic)) = 28 + Z.of_nat (length topic).
Proof.
  unfold command. rewrite !length_app.
  change (length (bytes "fish -c '__fish_print_help ")) with 27%nat.
  change (length (bytes "'")) with 1%nat. lia.
Qed.

Lemma formatted_length_strlen (c : list byte) :
  formatted_length c = 28 + strlen c.
Proof. unfold formatted_length, topic_of, strlen. apply length_command. Qed.

Lemma strlen_HELP_ERR : strlen HELP_ERR = 28.
Proof. reflexivity. Qed.

(** The complete command contains no NUL byte: [system] reads all of it. *)
Lemma command_no_nul (c : list byte) :
  c_str (command (topic_of c)) = command (topic_of c).
Proof.
  apply c_str_id. unfold command, topic_of.
  rewrite !forallb_app, c_str_no_nul. reflexivity.
Qed.

(** What the [snprintf] call of [print_help] returns and stores. *)
Lemma snprintf_command (c : list byte) :
  Libc.snprintf CMD_LEN (bytes "fish -c '__fish_print_help %s'") c =
  (if formatted_length c <=? Libc.INT_MAX then formatted_length c else -1,
   firstn (Z.to_nat (CMD_LEN - 1)) (command (topic_of c))).
Proof.
  unfold Libc.snprintf. rewrite format_s_template. reflexivity.
Qed.

Lemma firstn_fits (c : list byte) :
  formatted_length c < CMD_LEN ->
  firstn (Z.to_nat (CMD_LEN - 1)) (command (topic_of c)) = command (topic_of c).
Proof.
  unfold formatted_length. intros H. apply firstn_all2. lia.
Qed.

(** ** The three paths of print_help *)

Lemma print_help_fits (c : list byte) :
  formatted_length c < CMD_LEN ->
  print_help c = launch (command (topic_of c)).
Proof.
  intros H. unfold print_help. rewrite snprintf_command.
  assert (Hmax : (formatted_length c <=? Libc.INT_MAX) = true)
    by (apply Z.leb_le; unfold CMD_LEN, Libc.INT_MAX in *; lia).
  rewrite Hmax.
  apply Z.ltb_lt in H as Hlt. rewrite Hlt.
  rewrite (firstn_fits c H). reflexivity.
Qed.

Lemma print_help_skips (c : list byte) :
  CMD_LEN <= formatted_length c <= Libc.INT_MAX ->
  print_help c = Ret tt.
Proof.
  intros [Hlo Hhi]. unfold print_help. rewrite snprintf_command.
  apply Z.leb_le in Hhi as Hmax. rewrite Hmax.
  apply Z.ltb_ge in Hlo as Hge. now rewrite Hge.
Qed.

Lemma print_help_eoverflow (c : list byte) :
  Libc.INT_MAX < formatted_length c ->
  print_help c =
  launch (firstn (Z.to_nat (CMD_LEN - 1)) (command (topic_of c))).
Proof.
  intros H. unfold print_help. rewrite snprintf_command.
  apply Z.leb_gt in H as Hmax. rewrite Hmax. reflexivity.
Qed.

(** Runs of [launch], by the answer of [system]. *)
Section Launch.

Variable e : env.
Variable cmd : list byte.

Lemma exec_launch_ok :
  e [] (System cmd) <> -1 ->
  exec e (launch cmd) = ([(System cmd, e [] (System cmd))], tt).
Proof.
  intros H. unfold exec, launch. cbn [run].
  apply Z.eqb_neq in H. rewrite H. reflexivity.
Qed.

Lemma exec_launch_failed :
  e [] (System cmd) = -1 ->
  exec e (launch cmd) =
  ([(System cmd, -1);
    (WriteLoop 2 HELP_ERR 28,
     e [(System cmd, -1)] (WriteLoop 2 HELP_ERR 28))], tt).
Proof.
  intros H. unfold exec, launch. cbn [run]. rewrite H. reflexivity.
Qed.

(** The run of [launch] in all cases. *)
Lemma exec_launch :
  exec e (launch cmd) =
  if e [] (System cmd) =? -1 then
    ([(System cmd, -1);
      (WriteLoop 2 HELP_ERR 28,
       e [(System cmd, -1)] (WriteLoop 2 HELP_ERR 28))], tt)
  else ([(System cmd, e [] (System cmd))], tt).
Proof.
  destruct (e [] (System cmd) =? -1) eqn:H.
  - apply Z.eqb_eq in H. now apply exec_launch_failed.
  - apply Z.eqb_neq in H. now apply exec_launch_ok.
Qed.

Lemma invocations_launch :
  invocations (fst (exec e (launch cmd))) = [System cmd].
Proof.
  rewrite exec_launch. now destruct (e [] (System cmd) =? -1).
Qed.

End Launch.

(** ** Facts about the write primitive *)

Lemma write_all_sound (sink : list Common.write_answer) (fd : Z) :
  forall (pending : list byte) (st : Common.status) (ws : list Common.written),
    Common.write_all sink fd pending = Some (st, ws) ->
    Forall (fun w => fst w = fd) ws /\
    exists rest,
      Common.output ws ++ rest = pending /\
      (st = Common.AllWritten <-> rest = []).
Proof.
  induction sink as [|a sink IH]; intros pending st ws H.
  - destruct pending as [|b pending]; [|discriminate].
    injection H as <- <-. split; [constructor|].
    exists []. split; [reflexivity|]. split; reflexivity.
  - destruct pending as [|b pending].
    + injection H as <- <-. split; [constructor|].
      exists []. split; [reflexivity|]. split; reflexivity.
    + destruct a as [n|].
      * cbn [Common.write_all] in H.
        destruct (Common.write_all sink fd (skipn n (b :: pending)))
          as [[st' ws']|] eqn:Hrec; [|discriminate].
        injection H as <- <-.
        destruct (IH _ _ _ Hrec) as [Hfd [rest [Hout Hst]]].
        split; [constructor; [reflexivity|exact Hfd]|].
        exists rest. split; [|exact Hst].
        unfold Common.output in *. cbn [map concat snd].
        rewrite <- app_assoc, Hout. apply firstn_skipn.
      * injection H as <- <-. split; [constructor|].
        exists (b :: pending). split; [reflexivity|].
        split; discriminate.
Qed.

Lemma write_all_complete (fd : Z) (sink : list Common.write_answer) :
  forallb Common.takes_some sink = true ->
  forall pending : list byte,
    (length pending <= length sink)%nat ->
    exists ws, Common.write_all sink fd pending = Some (Common.AllWritten, ws).
Proof.
  induction sink as [|a sink IH]; intros Hs pending Hlen.
  - destruct pending; [|simpl in Hlen; lia]. now exists [].
  - destruct pending as [|b pending]; [now exists []|].
    cbn [forallb] in Hs. apply andb_true_iff in Hs as [Ha Hs].
    destruct a as [[|n]|]; try discriminate.
    cbn [Common.write_all].
    destruct (IH Hs (skipn (S n) (b :: pending))) as [ws Hws].
    + rewrite length_skipn. simpl in *. lia.
    + rewrite Hws. eexists. reflexivity.
Qed.

(** ** Facts about runs *)

Lemma run_deterministic {A : Type} (p : prog A) :
  forall (e1 e2 : env) (past : trace),
    answers (fst (run e1 p past)) = answers (fst (run e2 p past)) ->
    run e1 p past = run e2 p past.
Proof.
  induction p as [a|c k IH]; intros e1 e2 past H; [reflexivity|].
  cbn [run] in *.
  destruct (run e1 (k (e1 past c)) (past ++ [(c, e1 past c)])) as [t1 a1] eqn:H1.
  destruct (run e2 (k (e2 past c)) (past ++ [(c, e2 past c)])) as [t2 a2] eqn:H2.
  cbn [fst answers map snd] in H. injection H as Hr Ht.
  rewrite <- Hr in H2.
  specialize (IH (e1 past c) e1 e2 (past ++ [(c, e1 past c)])).
  rewrite H1, H2 in IH. cbn [fst] in IH.
  specialize (IH Ht). injection IH as <- <-. now rewrite Hr.
Qed.

(** The three paths cover every topic. *)
Lemma print_help_paths (c : list byte) :
  print_help c = launch (command (topic_of c)) /\ formatted_length c < CMD_LEN
  \/ print_help c = Ret tt /\ CMD_LEN <= formatted_length c <= Libc.INT_MAX
  \/ print_help c = launch (firstn (Z.to_nat (CMD_LEN - 1)) (command (topic_of c)))
     /\ Libc.INT_MAX < formatted_length c.
Proof.
  destruct (Z_lt_le_dec (formatted_length c) CMD_LEN) as [H|H].
  - left. split; [now apply print_help_fits|exact H].
  - destruct (Z_le_gt_dec (formatted_length c) Libc.INT_MAX) as [H'|H'].
    + right; left. split; [now apply print_help_skips|now split].
    + right; right. split; [apply print_help_eoverflow|]; lia.
Qed.

(** Runs of [print_help] on each path. *)
Lemma exec_fits (e : env) (c : list byte) :
  formatted_length c < CMD_LEN ->
  exec e (print_help c) = exec e (launch (command (topic_of c))).
Proof. intros H. now rewrite print_help_fits. Qed.

Lemma exec_skips (e : env) (c : list byte) :
  CMD_LEN <= formatted_length c <= Libc.INT_MAX ->
  exec e (print_help c) = ([], tt).
Proof. intros H. now rewrite print_help_skips. Qed.

Lemma formatted_length_long_topic : formatted_length long_topic = 2147483676.
Proof.
  rewrite formatted_length_strlen. unfold long_topic.
  rewrite strlen_repeat by reflexivity. rewrite Z2Nat.id; lia.
Qed.

Lemma firstn_repeat_le {A : Type} (a : A) (k n : nat) :
  (k <= n)%nat -> firstn k (repeat a n) = repeat a k.
Proof.
  revert n. induction k as [|k IH]; intros n H; [reflexivity|].
  destruct n as [|n]; [lia|]. cbn [repeat firstn]. f_equal. apply IH. lia.
Qed.

(** The string left in the buffer for a topic of at least 996 letters. *)
Lemma truncated_command (n : nat) :
  (996 <= n)%nat ->
  firstn (Z.to_nat (CMD_LEN - 1)) (command (repeat x61 n)) =
  bytes "fish -c '__fish_print_help " ++ repeat x61 996.
Proof.
  intros H. unfold command.
  change (Z.to_nat (CMD_LEN - 1))
    with (length (bytes "fish -c '__fish_print_help ") + 996)%nat.
  rewrite firstn_app_2. f_equal.
  rewrite firstn_app, (firstn_repeat_le x61 996 n H), repeat_length.
  replace (996 - n)%nat with 0%nat by lia. cbn [firstn]. apply app_nil_r.
Qed.

Lemma truncated_long_topic :
  firstn (Z.to_nat (CMD_LEN - 1)) (command (topic_of long_topic)) =
  bytes "fish -c '__fish_print_help " ++ repeat x61 996.
Proof.
  unfold topic_of, long_topic. rewrite c_str_repeat by reflexivity.
  apply truncated_command. lia.
Qed.

(** ** Properties of print_help *)

(** C1: normal path.  When the formatted command and its terminator fit
    in the buffer of [CMD_LEN] = 1024 bytes and the executor does not
    report a launch failure, [print_help] makes exactly one call to the
    outside world: [system], on the command
    ["fish -c '__fish_print_help " ++ topic ++ "'"]; nothing is handed to
    the write primitive. *)
Theorem normal_path_runs_command_once (c : list byte) (e : env) :
  formatted_length c < CMD_LEN ->
  e [] (System (command (topic_of c))) <> -1 ->
  calls (fst (exec e (print_help c))) =
    [System (bytes "fish -c '__fish_print_help " ++ topic_of c ++ bytes "'")] /\
  length (invocations (fst (exec e (print_help c)))) = 1%nat /\
  diagnostics (fst (exec e (print_help c))) = [].
Proof.
  intros Hfit Hok. rewrite (exec_fits e c Hfit), (exec_launch_ok e _ Hok).
  repeat split.
Qed.

Lemma normal_path_runs_command_once_witness :
  formatted_length (bytes "fish") < CMD_LEN /\
  calls (fst (exec obliging (print_help (bytes "fish")))) =
    [System (bytes "fish -c '__fish_print_help fish'")].
Proof.
  split; [reflexivity|].
  apply (normal_path_runs_command_once (bytes "fish") obliging);
    [reflexivity|discriminate].
Defined.

(** C3: launch failure.  When the command fits and [system] returns -1,
    [print_help] hands the write primitive exactly one request: file
    descriptor 2, the 28 bytes of ["Could not show help message\n"], count
    28.  On that request the primitive only writes to descriptor 2 and,
    whenever it reports completion, the concatenation of what its write
    calls wrote is the whole message; it does report completion on every
    sink that takes at least one byte per call.  When it stops on an
    unrecoverable error, what was written is a proper prefix of the
    message. *)
Theorem launch_failure_writes_diagnostic (c : list byte) (e : env) :
  formatted_length c < CMD_LEN ->
  e [] (System (command (topic_of c))) = -1 ->
  diagnostics (fst (exec e (print_help c))) =
    [WriteLoop 2 (bytes "Could not show help message" ++ [x0a]) 28] /\
  length HELP_ERR = 28%nat /\
  (forall sink st ws,
      Common.write_loop sink 2 HELP_ERR 28 = Some (st, ws) ->
      Forall (fun w => fst w = 2) ws /\
      (st = Common.AllWritten -> Common.output ws = HELP_ERR) /\
      (st = Common.IOError ->
       exists rest, rest <> [] /\ Common.output ws ++ rest = HELP_ERR)) /\
  (forall sink,
      forallb Common.takes_some sink = true ->
      (28 <= length sink)%nat ->
      exists ws,
        Common.write_loop sink 2 HELP_ERR 28 = Some (Common.AllWritten, ws) /\
        Common.output ws = HELP_ERR).
Proof.
  intros Hfit Hfail.
  rewrite (exec_fits e c Hfit), (exec_launch_failed e _ Hfail).
  split; [reflexivity|]. split; [reflexivity|].
  assert (Hsound : forall sink st ws,
             Common.write_loop sink 2 HELP_ERR 28 = Some (st, ws) ->
             Forall (fun w => fst w = 2) ws /\
             (st = Common.AllWritten -> Common.output ws = HELP_ERR) /\
             (st = Common.IOError ->
              exists rest,
                rest <> [] /\ Common.output ws ++ rest = HELP_ERR)).
  { intros sink st ws H. unfold Common.write_loop in H.
    change (firstn (Z.to_nat 28) HELP_ERR) with HELP_ERR in H.
    destruct (write_all_sound sink 2 _ _ _ H) as [Hfd [rest [Hout Hst]]].
    split; [exact Hfd|]. split.
    - intros ->. destruct Hst as [Hst _].
      rewrite (Hst eq_refl), app_nil_r in Hout. exact Hout.
    - intros ->. exists rest. split; [|exact Hout].
      intros Hnil. apply Hst in Hnil. discriminate. }
  split; [exact Hsound|].
  intros sink Hsome Hlen.
  destruct (write_all_complete 2 sink Hsome HELP_ERR Hlen) as [ws Hws].
  exists ws. split; [exact Hws|].
  now apply (Hsound sink Common.AllWritten ws).
Qed.

(** The topic is "fish", [system] fails, and the sink takes 5 bytes at a
    time. *)
Lemma launch_failure_writes_diagnostic_witness :
  formatted_length (bytes "fish") < CMD_LEN /\
  failing [] (System (command (topic_of (bytes "fish")))) = -1 /\
  diagnostics (fst (exec failing (print_help (bytes "fish")))) =
    [WriteLoop 2 (bytes "Could not show help message" ++ [x0a]) 28] /\
  exists ws,
    Common.write_loop (repeat (Common.Takes 5) 28) 2 HELP_ERR 28 =
      Some (Common.AllWritten, ws) /\
    Common.output ws = HELP_ERR.
Proof.
  split; [reflexivity|]. split; [reflexivity|].
  destruct (launch_failure_writes_diagnostic (bytes "fish") failing)
    as [Hcall [_ [_ Hall]]]; [reflexivity|reflexivity|].
  split; [exact Hcall|].
  apply Hall; [reflexivity|]. rewrite repeat_length. apply le_n.
Defined.

(** C4: the exit status is not inspected.  When the command fits, every
    answer of [system] other than -1, whatever termination status it
    carries, leads to the same run: the one [system] call and nothing
    handed to the write primitive.  A diagnostic is handed over if and
    only if the answer is -1. *)
Theorem exit_status_not_inspected (c : list byte) (e : env) :
  formatted_length c < CMD_LEN ->
  (e [] (System (command (topic_of c))) <> -1 ->
   calls (fst (exec e (print_help c))) = [System (command (topic_of c))]) /\
  (diagnostics (fst (exec e (print_help c))) <> [] <->
   e [] (System (command (topic_of c))) = -1).
Proof.
  intros Hfit. rewrite (exec_fits e c Hfit), exec_launch.
  destruct (e [] (System (command (topic_of c))) =? -1) eqn:H.
  - apply Z.eqb_eq in H. split; [intros H'; contradiction|].
    split; [intros _; exact H|intros _; discriminate].
  - apply Z.eqb_neq in H. split; [reflexivity|].
    split; [intros H'; now contradiction H'|intros H'; contradiction].
Qed.

(** The command exits with status 3: [system] returns 3 * 256. *)
Lemma exit_status_not_inspected_witness :
  formatted_length (bytes "fish") < CMD_LEN /\
  calls (fst (exec (fun _ _ => 768) (print_help (bytes "fish")))) =
    [System (command (topic_of (bytes "fish")))].
Proof.
  split; [reflexivity|].
  apply (exit_status_not_inspected (bytes "fish") (fun _ _ => 768));
    [reflexivity|discriminate].
Defined.

(** C5, refuted as stated: a topic of 996 letters gives a formatted
    command of exactly [CMD_LEN] = 1024 bytes, and the executor is not
    invoked: the boundary is not inclusive. *)
Lemma length_at_capacity_is_skipped :
  formatted_length (repeat x61 996) = CMD_LEN /\
  exec obliging (print_help (repeat x61 996)) = ([], tt).
Proof. split; vm_compute; reflexivity. Qed.

(** C5, amended: the boundary is exclusive.  A formatted command of
    exactly [CMD_LEN] bytes is treated as not fitting (its terminator
    would be the 1025th byte): no call is made.  A formatted command of
    [CMD_LEN - 1] bytes fits: the executor is invoked on the complete
    command. *)
Theorem boundary_is_exclusive (c c' : list byte) (e : env) :
  formatted_length c = CMD_LEN ->
  formatted_length c' = CMD_LEN - 1 ->
  exec e (print_help c) = ([], tt) /\
  invocations (fst (exec e (print_help c'))) = [System (command (topic_of c'))].
Proof.
  intros H H'. split.
  - apply exec_skips. rewrite H. unfold CMD_LEN, Libc.INT_MAX. lia.
  - rewrite exec_fits by (rewrite H'; lia). apply invocations_launch.
Qed.

Lemma boundary_is_exclusive_witness :
  exec obliging (print_help (repeat x61 996)) = ([], tt) /\
  invocations (fst (exec obliging (print_help (repeat x61 995)))) =
    [System (command (repeat x61 995))].
Proof.
  apply (boundary_is_exclusive (repeat x61 996) (repeat x61 995) obliging);
    vm_compute; reflexivity.
Defined.

(** C6: failures stay local.  For every topic and every environment the
    call returns, with the one value of the result type [unit], after at
    most two calls to the outside world; and what [write_loop] returns is
    discarded: replacing its answer by any other status changes neither
    the calls made nor the result. *)
Theorem failures_are_not_surfaced (c : list byte) (e : env) :
  snd (exec e (print_help c)) = tt /\
  (length (fst (exec e (print_help c))) <= 2)%nat /\
  forall status : Z,
    calls (fst (exec (with_write_status status e) (print_help c))) =
      calls (fst (exec e (print_help c))) /\
    snd (exec (with_write_status status e) (print_help c)) = tt.
Proof.
  destruct (print_help_paths c) as [[-> _]|[[-> _]|[-> _]]];
    rewrite ?exec_launch;
    try (split; [|split]; [reflexivity|simpl; lia|intros; split; reflexivity]).
  all: split; [now destruct (_ =? _)|];
    (split; [destruct (_ =? _); simpl; lia|]);
    intros status; rewrite exec_launch;
    change (with_write_status status e [] (System ?x)) with (e [] (System x));
    destruct (_ =? _); split; reflexivity.
Qed.

(** C8: at most one invocation.  For every topic and every environment
    a call of [print_help] invokes the executor at most once. *)
Theorem executor_invoked_at_most_once (c : list byte) (e : env) :
  (length (invocations (fst (exec e (print_help c)))) <= 1)%nat.
Proof.
  destruct (print_help_paths c) as [[-> _]|[[-> _]|[-> _]]];
    rewrite ?invocations_launch; simpl; lia.
Qed.

(** ** Topics whose formatted length is not an [int] *)

Lemma print_help_long_topic :
  print_help long_topic =
  launch (bytes "fish -c '__fish_print_help " ++ repeat x61 996).
Proof.
  rewrite print_help_eoverflow, truncated_long_topic; [reflexivity|].
  rewrite formatted_length_long_topic. unfold Libc.INT_MAX. lia.
Qed.

Lemma invocations_long_topic (e : env) :
  invocations (fst (exec e (print_help long_topic))) =
  [System (bytes "fish -c '__fish_print_help " ++ repeat x61 996)].
Proof. rewrite print_help_long_topic. apply invocations_launch. Qed.

Lemma In_invocations (t : trace) (c : call) :
  In c (invocations t) -> In c (calls t).
Proof. unfold invocations. intros H. now apply filter_In in H. Qed.

(** C2, at a topic of 2 GiB: the formatted command needs 2147483676
    bytes, far more than [CMD_LEN]; [snprintf] cannot return that number
    and returns -1, the test [printed < CMD_LEN] succeeds, and the
    executor is invoked once, on the 1023 bytes that are in the buffer. *)
Theorem overflow_past_int_max_is_launched (e : env) :
  CMD_LEN < formatted_length long_topic /\
  fst (Libc.snprintf CMD_LEN (bytes "fish -c '__fish_print_help %s'")
         long_topic) = -1 /\
  invocations (fst (exec e (print_help long_topic))) =
    [System (bytes "fish -c '__fish_print_help " ++ repeat x61 996)].
Proof.
  split; [|split; [|apply invocations_long_topic]].
  - rewrite formatted_length_long_topic. unfold CMD_LEN. lia.
  - rewrite snprintf_command, formatted_length_long_topic. reflexivity.
Qed.

(** C7, at a topic of 2 GiB: the command that is executed is the one cut
    to the buffer: the template up to [%s] and the first 996 letters of
    the topic, without the rest of the topic and without the closing
    quote.  It is not the complete command. *)
Theorem truncated_command_is_executed (e : env) :
  exists cmd : list byte,
    In (System cmd) (calls (fst (exec e (print_help long_topic)))) /\
    cmd = bytes "fish -c '__fish_print_help " ++ repeat x61 996 /\
    cmd <> command (topic_of long_topic).
Proof.
  eexists. split; [|split; [reflexivity|]].
  - apply In_invocations. rewrite invocations_long_topic. now left.
  - intros H. apply (f_equal (fun l => Z.of_nat (length l))) in H.
    fold (formatted_length long_topic) in H.
    rewrite formatted_length_long_topic, length_app, repeat_length in H.
    change (length (bytes "fish -c '__fish_print_help ")) with 27%nat in H.
    lia.
Qed.

(** C9, at a topic of 2 GiB: the topic is longer than 995 bytes and the
    executor is invoked all the same. *)
Theorem invoked_beyond_995_bytes (e : env) :
  995 < strlen long_topic /\
  invocations (fst (exec e (print_help long_topic))) <> [].
Proof.
  split; [|rewrite invocations_long_topic; discriminate].
  pose proof formatted_length_long_topic as H.
  rewrite formatted_length_strlen in H. lia.
Qed.

(** ** The same three properties where the formatted length is an [int] *)

(** X1: overflow path.  A command that does not fit in the buffer, and
    whose length [snprintf] can return as an [int], is not executed and
    not reported: the run makes no call at all. *)
Lemma overflow_is_skipped (c : list byte) (e : env) :
  CMD_LEN <= formatted_length c <= Libc.INT_MAX ->
  invocations (fst (exec e (print_help c))) = [] /\
  diagnostics (fst (exec e (print_help c))) = [].
Proof. intros H. rewrite (exec_skips e c H). now split. Qed.

(** A topic of 996 letters, and an executor that would fail. *)
Lemma overflow_is_skipped_witness :
  CMD_LEN <= formatted_length (repeat x61 996) <= Libc.INT_MAX /\
  invocations (fst (exec failing (print_help (repeat x61 996)))) = [] /\
  diagnostics (fst (exec failing (print_help (repeat x61 996)))) = [].
Proof.
  assert (H : CMD_LEN <= formatted_length (repeat x61 996) <= Libc.INT_MAX)
    by (split; apply Z.leb_le; vm_compute; reflexivity).
  split; [exact H|].
  exact (overflow_is_skipped (repeat x61 996) failing H).
Defined.

(** X2: no truncated command.  When [snprintf] can return the length of
    the formatted command as an [int], every command handed to the
    executor is the complete one: the template with the whole topic. *)
Lemma executed_command_is_complete (c : list byte) (e : env) (cmd : list byte) :
  formatted_length c <= Libc.INT_MAX ->
  In (System cmd) (invocations (fst (exec e (print_help c)))) ->
  cmd = command (topic_of c).
Proof.
  intros Hmax Hin.
  destruct (print_help_paths c) as [[Hp _]|[[Hp _]|[_ Hlt]]]; [| |lia];
    rewrite Hp in Hin.
  - rewrite invocations_launch in Hin.
    destruct Hin as [Hin|[]]. now injection Hin.
  - destruct Hin.
Qed.

Lemma executed_command_is_complete_witness :
  formatted_length (bytes "fish") <= Libc.INT_MAX /\
  In (System (bytes "fish -c '__fish_print_help fish'"))
     (invocations (fst (exec obliging (print_help (bytes "fish"))))) /\
  bytes "fish -c '__fish_print_help fish'" = command (topic_of (bytes "fish")).
Proof.
  assert (H : formatted_length (bytes "fish") <= Libc.INT_MAX)
    by (apply Z.leb_le; vm_compute; reflexivity).
  assert (Hin : In (System (bytes "fish -c '__fish_print_help fish'"))
                  (invocations (fst (exec obliging (print_help (bytes "fish"))))))
    by (left; reflexivity).
  split; [exact H|]. split; [exact Hin|].
  exact (executed_command_is_complete (bytes "fish") obliging _ H Hin).
Defined.

(** X3: topic length.  When [snprintf] can return the length of the
    formatted command as an [int], the executor is invoked exactly for
    the topics of at most 995 bytes. *)
Lemma invoked_iff_at_most_995_bytes (c : list byte) (e : env) :
  formatted_length c <= Libc.INT_MAX ->
  (invocations (fst (exec e (print_help c))) <> [] <-> strlen c <= 995).
Proof.
  intros Hmax. pose proof (formatted_length_strlen c) as Hlen.
  destruct (print_help_paths c) as [[Hp Hc]|[[Hp Hc]|[_ Hlt]]]; [| |lia];
    rewrite Hp; unfold CMD_LEN in Hc.
  - rewrite invocations_launch. split; [lia|discriminate].
  - split; [intros H; now contradiction H|lia].
Qed.

Lemma invoked_iff_at_most_995_bytes_witness :
  formatted_length (repeat x61 995) <= Libc.INT_MAX /\
  (invocations (fst (exec obliging (print_help (repeat x61 995)))) <> [] <->
   strlen (repeat x61 995) <= 995).
Proof.
  assert (H : formatted_length (repeat x61 995) <= Libc.INT_MAX)
    by (apply Z.leb_le; vm_compute; reflexivity).
  split; [exact H|].
  exact (invoked_iff_at_most_995_bytes (repeat x61 995) obliging H).
Defined.

(** The empty topic is executed as it is. *)
Lemma empty_topic_is_executed (e : env) :
  invocations (fst (exec e (print_help []))) =
  [System (bytes "fish -c '__fish_print_help '")].
Proof.
  rewrite print_help_fits by reflexivity. apply invocations_launch.
Qed.

(** ** What every run keeps to, whatever the topic *)

Lemma forallb_firstn {A : Type} (f : A -> bool) (n : nat) (l : list A) :
  forallb f l = true -> forallb f (firstn n l) = true.
Proof.
  revert l. induction n as [|n IH]; intros [|a l] H; try reflexivity.
  cbn [firstn forallb] in *. apply andb_true_iff in H as [Ha Hl].
  now rewrite Ha, IH.
Qed.

Lemma command_nul_free (c : list byte) :
  forallb (fun b => negb (is_nul b)) (command (topic_of c)) = true.
Proof.
  unfold command, topic_of. rewrite !forallb_app, c_str_no_nul. reflexivity.
Qed.

Lemma firstn_prefix_command (topic : list byte) :
  firstn 27 (command topic) = bytes "fish -c '__fish_print_help ".
Proof. reflexivity. Qed.

Lemma calls_launch (e : env) (cmd : list byte) :
  calls (fst (exec e (launch cmd))) =
  if e [] (System cmd) =? -1 then [System cmd; WriteLoop 2 HELP_ERR 28]
  else [System cmd].
Proof. rewrite exec_launch. destruct (_ =? _); reflexivity. Qed.

(** The command of every [system] call, by the path taken. *)
Lemma system_call_inv (c : list byte) (e : env) (cmd : list byte) :
  In (System cmd) (calls (fst (exec e (print_help c)))) ->
  cmd = command (topic_of c) /\ formatted_length c < CMD_LEN \/
  cmd = firstn (Z.to_nat (CMD_LEN - 1)) (command (topic_of c)) /\
  Libc.INT_MAX < formatted_length c.
Proof.
  intros Hin.
  assert (Hlaunch : forall cmd',
             In (System cmd) (calls (fst (exec e (launch cmd')))) ->
             cmd = cmd').
  { intros cmd' H. rewrite calls_launch in H.
    destruct (e [] (System cmd') =? -1).
    - destruct H as [H|[H|[]]]; [|discriminate H].
      injection H as H. symmetry. exact H.
    - destruct H as [H|[]]. injection H as H. symmetry. exact H. }
  destruct (print_help_paths c) as [[Hp Hc]|[[Hp Hc]|[Hp Hc]]];
    rewrite Hp in Hin.
  - left. split; [exact (Hlaunch _ Hin)|exact Hc].
  - destruct Hin.
  - right. split; [exact (Hlaunch _ Hin)|exact Hc].
Qed.

(** X4: the diagnostic.  Whatever the topic and the environment, a call
    to the write primitive is the second and last call of the run, it
    comes after a [system] call that returned -1, and it is for file
    descriptor 2, the buffer [HELP_ERR] and a count equal to the length
    of that buffer. *)
Theorem diagnostic_only_after_failed_launch
    (c : list byte) (e : env) (fd : Z) (buf : list byte) (count : Z) :
  In (WriteLoop fd buf count) (calls (fst (exec e (print_help c)))) ->
  fd = 2 /\ buf = HELP_ERR /\ count = Z.of_nat (length buf) /\
  exists cmd s,
    fst (exec e (print_help c)) =
    [(System cmd, -1); (WriteLoop fd buf count, s)].
Proof.
  intros Hin.
  assert (Hlaunch : forall cmd,
             In (WriteLoop fd buf count) (calls (fst (exec e (launch cmd)))) ->
             fd = 2 /\ buf = HELP_ERR /\ count = Z.of_nat (length buf) /\
             exists cmd' s,
               fst (exec e (launch cmd)) =
               [(System cmd', -1); (WriteLoop fd buf count, s)]).
  { intros cmd H. rewrite calls_launch in H. rewrite exec_launch.
    destruct (e [] (System cmd) =? -1).
    - destruct H as [H|[H|[]]]; [discriminate H|].
      injection H as <- <- <-.
      split; [reflexivity|]. split; [reflexivity|]. split; [reflexivity|].
      exists cmd, (e [(System cmd, -1)] (WriteLoop 2 HELP_ERR 28)).
      reflexivity.
    - destruct H as [H|[]]. discriminate H. }
  destruct (print_help_paths c) as [[Hp _]|[[Hp _]|[Hp _]]];
    rewrite Hp in Hin |- *.
  - exact (Hlaunch _ Hin).
  - destruct Hin.
  - exact (Hlaunch _ Hin).
Qed.

Lemma diagnostic_only_after_failed_launch_witness :
  In (WriteLoop 2 HELP_ERR 28)
     (calls (fst (exec failing (print_help (bytes "fish"))))) /\
  exists cmd s,
    fst (exec failing (print_help (bytes "fish"))) =
    [(System cmd, -1); (WriteLoop 2 HELP_ERR 28, s)].
Proof.
  assert (Hin : In (WriteLoop 2 HELP_ERR 28)
                  (calls (fst (exec failing (print_help (bytes "fish"))))))
    by (right; left; reflexivity).
  split; [exact Hin|].
  apply (diagnostic_only_after_failed_launch (bytes "fish") failing _ _ _ Hin).
Defined.

(** X5: the buffer.  Whatever the topic and the environment, the command
    handed to [system] is a string of fewer than [CMD_LEN] bytes without
    a NUL byte, so that it lies with its terminator inside [cmd], and it
    begins with the 27 bytes of the template that come before [%s]. *)
Theorem executed_command_fits_buffer
    (c : list byte) (e : env) (cmd : list byte) :
  In (System cmd) (calls (fst (exec e (print_help c)))) ->
  Z.of_nat (length cmd) < CMD_LEN /\
  c_str cmd = cmd /\
  firstn 27 cmd = bytes "fish -c '__fish_print_help ".
Proof.
  intros Hin.
  destruct (system_call_inv c e cmd Hin) as [[Hcmd Hc]|[Hcmd Hc]];
    rewrite Hcmd.
  - split; [exact Hc|]. split; [apply command_no_nul|].
    apply firstn_prefix_command.
  - split; [|split].
    + rewrite length_firstn. unfold CMD_LEN. lia.
    + apply c_str_id, forallb_firstn, command_nul_free.
    + rewrite firstn_firstn.
      change (Nat.min 27 (Z.to_nat (CMD_LEN - 1))) with 27%nat.
      apply firstn_prefix_command.
Qed.

Lemma executed_command_fits_buffer_witness :
  In (System (bytes "fish -c '__fish_print_help fish'"))
     (calls (fst (exec obliging (print_help (bytes "fish"))))) /\
  Z.of_nat (length (bytes "fish -c '__fish_print_help fish'")) < CMD_LEN.
Proof.
  assert (Hin : In (System (bytes "fish -c '__fish_print_help fish'"))
                  (calls (fst (exec obliging (print_help (bytes "fish"))))))
    by (left; reflexivity).
  split; [exact Hin|].
  apply (executed_command_fits_buffer (bytes "fish") obliging _ Hin).
Defined.

(** X6: the invocation is decided by the topic alone.  Whether the
    executor is invoked, and on which command, does not depend on the
    environment: two runs on the same topic invoke it alike, whatever
    [system] and the write primitive answer in each. *)
Theorem invocation_independent_of_answers (c : list byte) (e1 e2 : env) :
  invocations (fst (exec e1 (print_help c))) =
  invocations (fst (exec e2 (print_help c))).
Proof.
  destruct (print_help_paths c) as [[-> _]|[[-> _]|[-> _]]];
    rewrite ?invocations_launch; reflexivity.
Qed.

(** X7: the topic can be read back from the command.  For a topic whose
    command fits, the command handed to [system] carries the bytes of the
    topic unchanged from offset 27 on, followed by the closing quote and
    nothing else: without its first 27 bytes and its last byte the
    command is the topic, byte for byte. *)
Theorem topic_read_back_from_command
    (c : list byte) (e : env) (cmd : list byte) :
  formatted_length c < CMD_LEN ->
  In (System cmd) (calls (fst (exec e (print_help c)))) ->
  removelast (skipn 27 cmd) = topic_of c /\
  skipn (length (topic_of c)) (skipn 27 cmd) = bytes "'".
Proof.
  intros Hfit Hin.
  destruct (system_call_inv c e cmd Hin) as [[Hcmd _]|[_ Hc]];
    [|unfold CMD_LEN, Libc.INT_MAX in *; lia].
  rewrite Hcmd.
  change (skipn 27 (command (topic_of c))) with (topic_of c ++ [x27]).
  split; [apply removelast_last|].
  rewrite skipn_app, skipn_all, Nat.sub_diag. reflexivity.
Qed.

(** The topic holds a quote, which reaches the command as it is. *)
Lemma topic_read_back_from_command_witness :
  formatted_length (bytes "it's") < CMD_LEN /\
  In (System (bytes "fish -c '__fish_print_help it's'"))
     (calls (fst (exec obliging (print_help (bytes "it's"))))) /\
  removelast (skipn 27 (bytes "fish -c '__fish_print_help it's'")) =
    topic_of (bytes "it's").
Proof.
  assert (Hin : In (System (bytes "fish -c '__fish_print_help it's'"))
                  (calls (fst (exec obliging (print_help (bytes "it's"))))))
    by (left; reflexivity).
  split; [reflexivity|]. split; [exact Hin|].
  apply (topic_read_back_from_command (bytes "it's") obliging _);
    [reflexivity|exact Hin].
Defined.

(** ** The local array and the runs *)

Lemma c_str_terminated (s rest : list byte) :
  forallb (fun b => negb (is_nul b)) s = true -> c_str (s ++ x00 :: rest) = s.
Proof.
  induction s as [|b s IH]; intros H; [reflexivity|].
  cbn [forallb] in H. apply andb_true_iff in H as [Hb Hs].
  apply negb_true_iff in Hb.
  cbn [app c_str]. rewrite Hb. f_equal. exact (IH Hs).
Qed.

Lemma c_str_store (s buf : list byte) :
  forallb (fun b => negb (is_nul b)) s = true -> c_str (store s buf) = s.
Proof. apply c_str_terminated. Qed.

Lemma snprintf_into_command (kept : nat) (stack c : list byte) :
  snprintf_into kept stack CMD_LEN (bytes "fish -c '__fish_print_help %s'") c =
  if formatted_length c <=? Libc.INT_MAX
  then (formatted_length c,
        store (firstn (Z.to_nat (CMD_LEN - 1)) (command (topic_of c))) stack)
  else (-1,
        store (firstn (Nat.min kept (Z.to_nat (CMD_LEN - 1)))
                 (command (topic_of c))) stack).
Proof.
  unfold snprintf_into. rewrite format_s_template. reflexivity.
Qed.

Lemma c_str_store_prefix (n : nat) (c stack : list byte) :
  c_str (store (firstn n (command (topic_of c))) stack) =
  firstn n (command (topic_of c)).
Proof. apply c_str_store, forallb_firstn, command_nul_free. Qed.

(** The program that [print_help_in] comes to: the array enters it only
    through the string that [snprintf] has stored and terminated. *)
Lemma print_help_in_paths (kept : nat) (stack c : list byte) :
  print_help_in kept stack c =
  if formatted_length c <=? Libc.INT_MAX
  then if formatted_length c <? CMD_LEN
       then launch (firstn (Z.to_nat (CMD_LEN - 1)) (command (topic_of c)))
       else Ret tt
  else launch (firstn (Nat.min kept (Z.to_nat (CMD_LEN - 1)))
                 (command (topic_of c))).
Proof.
  unfold print_help_in. rewrite snprintf_into_command.
  destruct (formatted_length c <=? Libc.INT_MAX).
  - destruct (formatted_length c <? CMD_LEN); [|reflexivity].
    rewrite c_str_store_prefix. reflexivity.
  - change (-1 <? CMD_LEN) with true. cbv iota.
    rewrite c_str_store_prefix. reflexivity.
Qed.

(** [print_help] is [print_help_in] for the GNU C library, whatever the
    array held. *)
Lemma print_help_in_glibc (stack c : list byte) :
  print_help_in (Z.to_nat (CMD_LEN - 1)) stack c = print_help c.
Proof.
  rewrite print_help_in_paths. rewrite Nat.min_id.
  destruct (print_help_paths c) as [[Hp Hc]|[[Hp Hc]|[Hp Hc]]]; rewrite Hp.
  - assert (Hmax : (formatted_length c <=? Libc.INT_MAX) = true)
      by (apply Z.leb_le; unfold CMD_LEN, Libc.INT_MAX in *; lia).
    apply Z.ltb_lt in Hc as Hlt. rewrite Hmax, Hlt.
    now rewrite (firstn_fits c Hc).
  - destruct Hc as [Hlo Hhi].
    apply Z.leb_le in Hhi. apply Z.ltb_ge in Hlo. now rewrite Hhi, Hlo.
  - apply Z.leb_gt in Hc. now rewrite Hc.
Qed.

Lemma print_help_in_same (kept1 kept2 : nat) (stack1 stack2 c : list byte) :
  kept1 = kept2 \/ formatted_length c <= Libc.INT_MAX ->
  print_help_in kept1 stack1 c = print_help_in kept2 stack2 c.
Proof.
  intros H. rewrite !print_help_in_paths.
  destruct H as [->|H]; [reflexivity|].
  apply Z.leb_le in H. now rewrite H.
Qed.

(** C10: determinism.  Two runs of [print_help] on the same topic in
    which the executor and the write primitive give the same answers make
    the same calls, with the same arguments, in the same order, and
    return the same result, whatever the uninitialised array [cmd] held
    at the start of each run.  This holds for two runs against the same C
    library, and even against two C libraries that store different
    amounts of output when they fail, as long as [snprintf] can return
    the length of the command. *)
Theorem effects_fixed_by_topic_and_answers
    (kept1 kept2 : nat) (stack1 stack2 : list byte)
    (c : list byte) (e1 e2 : env) :
  kept1 = kept2 \/ formatted_length c <= Libc.INT_MAX ->
  answers (fst (exec e1 (print_help_in kept1 stack1 c))) =
  answers (fst (exec e2 (print_help_in kept2 stack2 c))) ->
  exec e1 (print_help_in kept1 stack1 c) =
  exec e2 (print_help_in kept2 stack2 c).
Proof.
  intros Hlib. rewrite (print_help_in_same kept1 kept2 stack1 stack2 c Hlib).
  apply run_deterministic.
Qed.

(** The array holds different bytes in the two runs, the C libraries are
    different, and so are the environments; [system] fails in both. *)
Lemma effects_fixed_by_topic_and_answers_witness :
  formatted_length (bytes "fish") <= Libc.INT_MAX /\
  exec failing (print_help_in 1023 (repeat xff 1024) (bytes "fish")) =
  exec failing_twice (print_help_in 27 (repeat x41 1024) (bytes "fish")).
Proof.
  assert (H : formatted_length (bytes "fish") <= Libc.INT_MAX)
    by (apply Z.leb_le; vm_compute; reflexivity).
  split; [exact H|].
  apply (effects_fixed_by_topic_and_answers 1023 27 _ _ (bytes "fish"));
    [right; exact H|vm_compute; reflexivity].
Defined.
